(** * Patient service (sample-api-hc/patient-service/main.go)

    A shallow embedding of the in-memory patient store and of the four
    request handlers that drive it, followed by the properties of the
    service's specification.

    Modelling conventions.
    - A Go [string] is a sequence of bytes; Rocq's [string] (a list of
      8-bit [ascii]) is used for it, byte for byte.
    - [map[string]PatientInfo] is a [gmap string PatientInfo]: assignment
      [m[k] = v] is [<[k:=v]> m], the two-valued lookup [v, ok := m[k]] is
      [m !! k].
    - Every handler is a function from the store before the request to the
      response written and the store after it (explicit state passing).
      The [sync.RWMutex] of the store is taken and released inside each
      handler around its single access to the map, so one handler call is
      one atomic transition of the store; the lock itself carries no data
      and has no field in the model.
    - The libraries the handlers call are represented by what they hand to
      the handler: [mux.Vars(r)["name"]] by the path parameter, the JSON
      decoder by its outcome (an error, or the decoded record), the JSON
      encoder by the value it is given, [http.Error] by the message and
      the status code it is given, [time.Now().Format(time.RFC3339)] by
      the text it returns. *)

From Stdlib Require Import Ascii String NArith.
From stdpp Require Import base option list gmap strings fin_maps.

Local Open Scope string_scope.

(** ** Data model *)

Record PatientInfo : Type := {
  Name : string;
  DateOfBirth : string;
  Gender : string;
  Illness : string;
  Email : string
}.

(** [PatientStore]: the [patients] map (the [mu] lock has no content). *)
Record PatientStore : Type := { patients : gmap string PatientInfo }.

(** The response a handler writes. *)
Inductive Body : Type :=
| ErrorText (msg : string)                   (* http.Error(w, msg, code) *)
| PatientJSON (patient : PatientInfo)        (* Encode(patient) *)
| PatientsJSON (patients : list PatientInfo) (* Encode(patients) *)
| HealthJSON (status time : string).         (* Encode(map{"status","time"}) *)

Record Response : Type := {
  statusCode : nat;
  contentType : string;
  body : Body
}.

Definition StatusOK : nat := 200.
Definition StatusCreated : nat := 201.
Definition StatusBadRequest : nat := 400.
Definition StatusNotFound : nat := 404.

(** [http.Error]: plain-text content type, the given code, the message. *)
Definition httpError (msg : string) (code : nat) : Response :=
  {| statusCode := code;
     contentType := "text/plain; charset=utf-8";
     body := ErrorText msg |}.

(** A handler that sets the JSON content type, optionally calls
    [WriteHeader], and encodes a value; without [WriteHeader] the first
    write sends 200. *)
Definition jsonResponse (code : nat) (b : Body) : Response :=
  {| statusCode := code; contentType := "application/json"; body := b |}.

(** ** [strings.ToLower] *)

Fixpoint mapBytes (f : ascii -> ascii) (s : string) : string :=
  match s with
  | EmptyString => EmptyString
  | String c rest => String (f c) (mapBytes f rest)
  end.

Fixpoint allBytes (f : ascii -> bool) (s : string) : bool :=
  match s with
  | EmptyString => true
  | String c rest => f c && allBytes f rest
  end.

Fixpoint anyByte (f : ascii -> bool) (s : string) : bool :=
  match s with
  | EmptyString => false
  | String c rest => f c || anyByte f rest
  end.

(** [c < utf8.RuneSelf] *)
Definition isASCIIByte (c : ascii) : bool := (N_of_ascii c <? 128)%N.

(** ['A' <= c && c <= 'Z'] *)
Definition isUpperByte (c : ascii) : bool :=
  ((65 <=? N_of_ascii c) && (N_of_ascii c <=? 90))%N.

(** [c += 'a' - 'A'] on an upper-case byte, other bytes unchanged. *)
Definition lowerByte (c : ascii) : ascii :=
  if isUpperByte c then ascii_of_N (N_of_ascii c + 32) else c.

Section Service.

(** The library sends a string with a byte outside ASCII through
    [strings.Map(unicode.ToLower, s)], which depends on the Unicode case
    tables; that path is a parameter of the development. *)
Variable mapUnicodeToLower : string -> string.

Definition ToLower (s : string) : string :=
  if allBytes isASCIIByte s then
    if anyByte isUpperByte s then mapBytes lowerByte s else s
  else mapUnicodeToLower s.

(** ** The store at start-up: [init] *)

Definition nobodyKnows : PatientInfo :=
  {| Name := "Nobody Knows"; DateOfBirth := "1985-03-15"; Gender := "Male";
     Illness := "Hypertension"; Email := "nobody.knows@email.com" |}.

Definition johnsonFake : PatientInfo :=
  {| Name := "Johnson Fake"; DateOfBirth := "1990-07-22"; Gender := "Female";
     Illness := "Type 2 Diabetes"; Email := "johnson.fake@email.com" |}.

Definition michaelChen : PatientInfo :=
  {| Name := "Michael Chen"; DateOfBirth := "1978-11-08"; Gender := "Male";
     Illness := "Asthma"; Email := "michael.chen@email.com" |}.

Definition emilyLor : PatientInfo :=
  {| Name := "Emily Lor"; DateOfBirth := "1995-02-14"; Gender := "Female";
     Illness := "Migraine"; Email := "emily.lor@email.com" |}.

Definition samplePatients : list PatientInfo :=
  [nobodyKnows; johnsonFake; michaelChen; emilyLor].

(** [store.patients[strings.ToLower(patient.Name)] = patient] *)
Definition put (patient : PatientInfo) (store : PatientStore) : PatientStore :=
  {| patients := <[ToLower (Name patient) := patient]> (patients store) |}.

(** [make(map[string]PatientInfo)], then one assignment per sample, in
    the order of the slice. *)
Definition init : PatientStore :=
  foldl (fun store patient => put patient store)
        {| patients := ∅ |} samplePatients.

(** ** Handlers *)

Definition getPatientByName (name : string) (store : PatientStore)
  : Response * PatientStore :=
  let name := ToLower name in
  match patients store !! name with
  | None => (httpError "Patient not found" StatusNotFound, store)
  | Some patient => (jsonResponse StatusOK (PatientJSON patient), store)
  end.

(** [decoded] is the outcome of [json.NewDecoder(r.Body).Decode(&patient)]:
    [None] when [err != nil], otherwise the record decoded. *)
Definition createPatient (decoded : option PatientInfo) (store : PatientStore)
  : Response * PatientStore :=
  match decoded with
  | None => (httpError "Invalid request body" StatusBadRequest, store)
  | Some patient =>
      if bool_decide (Name patient = "")
         || bool_decide (DateOfBirth patient = "")
         || bool_decide (Email patient = "")
      then (httpError "Name, date of birth, and email are required"
                      StatusBadRequest, store)
      else (jsonResponse StatusCreated (PatientJSON patient),
            put patient store)
  end.

(** [range store.patients] visits every entry of the map once, in an
    order the runtime chooses: [visit] is such a traversal. *)
Definition rangeOver (m : gmap string PatientInfo)
    (visit : list (string * PatientInfo)) : Prop :=
  visit ≡ₚ map_to_list m.

(** The loop [for _, patient := range ... { patients = append(patients,
    patient) }] run over the traversal [visit], from the empty slice. *)
Definition collect (visit : list (string * PatientInfo)) : list PatientInfo :=
  foldl (fun patients entry => (patients ++ [entry.2])%list) [] visit.

Definition listAllPatients (visit : list (string * PatientInfo))
    (store : PatientStore) : Response * PatientStore :=
  let patients := collect visit in
  (jsonResponse StatusOK (PatientsJSON patients), store).

(** [now] is the text [time.Now().Format(time.RFC3339)] returns. *)
Definition healthCheck (now : string) (store : PatientStore)
  : Response * PatientStore :=
  (jsonResponse StatusOK (HealthJSON "healthy" now), store).

(** ** The service as a transition system *)

(** The four routes of [main]. *)
Inductive Request : Type :=
| GetPatients                                  (* GET  /api/patients *)
| PostPatients (decoded : option PatientInfo)  (* POST /api/patients *)
| GetPatient (name : string)                   (* GET  /api/patients/{name} *)
| GetHealth (now : string).                    (* GET  /health *)

(** One request served: the response and the store it leaves. *)
Definition step (store : PatientStore) (req : Request)
    (resp : Response) (store' : PatientStore) : Prop :=
  match req with
  | GetPatients =>
      exists visit, rangeOver (patients store) visit /\
                    listAllPatients visit store = (resp, store')
  | PostPatients decoded => createPatient decoded store = (resp, store')
  | GetPatient name => getPatientByName name store = (resp, store')
  | GetHealth now => healthCheck now store = (resp, store')
  end.

(** The stores the process can be in: [init], then any requests. *)
Inductive reachable : PatientStore -> Prop :=
| reachable_init : reachable init
| reachable_step store req resp store' :
    reachable store -> step store req resp store' -> reachable store'.

(** ** Notions of the specification *)

(** Every key is the lower-case form of the name of its record. *)
Definition keyedByLowerName (store : PatientStore) : Prop :=
  forall key patient,
    patients store !! key = Some patient -> key = ToLower (Name patient).

(** The required fields of a create request are present. *)
Definition requiredPresent (patient : PatientInfo) : Prop :=
  Name patient <> "" /\ DateOfBirth patient <> "" /\ Email patient <> "".

(** A create request the service refuses: the body did not decode, or
    one of the required fields of the decoded record is empty. *)
Definition refused (decoded : option PatientInfo) : Prop :=
  decoded = None \/
  exists patient, decoded = Some patient /\
    (Name patient = "" \/ DateOfBirth patient = "" \/ Email patient = "").

(** Two bytes that are equal or the two cases of one ASCII letter. *)
Definition sameLetter (a b : ascii) : bool :=
  bool_decide (a = b)
  || (isUpperByte a && bool_decide (b = lowerByte a))
  || (isUpperByte b && bool_decide (a = lowerByte b)).

(** Two strings that differ at most in the case of ASCII letters. *)
Fixpoint caseVariant (s t : string) : bool :=
  match s, t with
  | EmptyString, EmptyString => true
  | String a s', String b t' => sameLetter a b && caseVariant s' t'
  | _, _ => false
  end.



(** The records a list response carries. *)
Definition recordsOf (resp : Response) : list PatientInfo :=
  match body resp with
  | PatientsJSON patients => patients
  | _ => []
  end.

(** ** Sample inputs *)

(** A stand-in for the non-ASCII path, for running the service on ASCII
    names, where that path is never taken. *)
Definition keepBytes (s : string) : string := s.





Definition ada : PatientInfo :=
  {| Name := "Ada Lovelace"; DateOfBirth := "1815-12-10"; Gender := "Female";
     Illness := "None"; Email := "ada@example.com" |}.

Definition emilyAgain : PatientInfo :=
  {| Name := "EMILY LOR"; DateOfBirth := "1995-02-14"; Gender := "Female";
     Illness := "Recovered"; Email := "emily@example.org" |}.

Definition noEmail : PatientInfo :=
  {| Name := "Grace Hopper"; DateOfBirth := "1906-12-09"; Gender := "Female";
     Illness := "None"; Email := "" |}.

Definition blankPatient : PatientInfo :=
  {| Name := " "; DateOfBirth := "  "; Gender := ""; Illness := "";
     Email := " " |}.

(** ** Runs of requests *)

(** The handler a routed request reaches, with the traversal order the
    list handler is given. *)
Definition handle (visit : list (string * PatientInfo)) (req : Request)
    (store : PatientStore) : Response * PatientStore :=
  match req with
  | GetPatients => listAllPatients visit store
  | PostPatients decoded => createPatient decoded store
  | GetPatient name => getPatientByName name store
  | GetHealth now => healthCheck now store
  end.

(** The stores some sequence of requests leads to from [store]. *)
Inductive reachableFrom (store : PatientStore) : PatientStore -> Prop :=
| from_here : reachableFrom store store
| from_step mid req resp store' :
    reachableFrom store mid -> step mid req resp store' ->
    reachableFrom store store'.

(** ** The response writer

    [http.ResponseWriter] as the handlers use it: a header map that can
    be set until the status line goes out, a status line that the first
    [WriteHeader] sends together with the headers as they are then, and
    the values written to the body. *)
Record ResponseWriter : Type := {
  header : gmap string string;
  sent : option (nat * gmap string string);
  written : list Body
}.

(** [w.Header().Set(key, value)] *)
Definition setHeader (key value : string) (w : ResponseWriter)
  : ResponseWriter :=
  {| header := <[key := value]> (header w);
     sent := sent w;
     written := written w |}.

(** [w.WriteHeader(code)]: only the first call sends. *)
Definition writeHeader (code : nat) (w : ResponseWriter) : ResponseWriter :=
  match sent w with
  | Some _ => w
  | None => {| header := header w;
               sent := Some (code, header w);
               written := written w |}
  end.

(** A write to the body: sends status 200 first when no status has
    been sent. *)
Definition writeBody (b : Body) (w : ResponseWriter) : ResponseWriter :=
  let w := writeHeader StatusOK w in
  {| header := header w; sent := sent w; written := (written w ++ [b])%list |}.

(** The writes of a handler whose response is [resp]: the content type
    is set, then the status is sent, then the body is written. The
    headers [http.Error] sets or deletes besides the content type are not
    recorded; none of them is an [Access-Control] header. *)
Definition respond (resp : Response) (w : ResponseWriter) : ResponseWriter :=
  writeBody (body resp)
    (writeHeader (statusCode resp)
       (setHeader "Content-Type" (contentType resp) w)).

(** The headers that go out with the response: those the status line
    took, or the header map when the handler returned without sending. *)
Definition sentHeader (w : ResponseWriter) : gmap string string :=
  match sent w with
  | Some (_, headers) => headers
  | None => header w
  end.

(** ** The middleware and the routes of [main] *)

(** What a handler reads of [*http.Request]: the method, the path, and
    the outcome of decoding the body as a patient record. *)
Record HttpRequest : Type := {
  Method : string;
  URLPath : string;
  decodedBody : option PatientInfo
}.

(** What the runtime supplies while a request is served: the order in
    which [range] traverses the map (a traversal of the map as it is when
    the list handler runs), and the formatted clock reading. *)
Record Runtime : Type := {
  rangeOrder : list (string * PatientInfo);
  clockText : string
}.

(** [http.Handler], with the global store passed explicitly. *)
Definition Handler : Type :=
  ResponseWriter -> HttpRequest -> PatientStore
  -> ResponseWriter * PatientStore.

Definition enableCORS (next : Handler) : Handler :=
  fun w r store =>
    let w := setHeader "Access-Control-Allow-Origin" "*" w in
    let w := setHeader "Access-Control-Allow-Methods" "GET, POST, OPTIONS" w in
    let w := setHeader "Access-Control-Allow-Headers" "Content-Type" w in
    if bool_decide (Method r = "OPTIONS") then (writeHeader StatusOK w, store)
    else next w r store.

(** The four handler functions registered in [main]. *)
Inductive HandlerFunc : Type :=
| ListAllPatients | CreatePatient | GetPatientByName | HealthCheck.

(** [r.HandleFunc(template, handlerFunc).Methods(method)] *)
Record Route : Type := {
  template : string;
  method : string;
  handlerFunc : HandlerFunc
}.

Definition routes : list Route :=
  [ {| template := "/api/patients"; method := "GET";
       handlerFunc := ListAllPatients |};
    {| template := "/api/patients"; method := "POST";
       handlerFunc := CreatePatient |};
    {| template := "/api/patients/{name}"; method := "GET";
       handlerFunc := GetPatientByName |};
    {| template := "/health"; method := "GET";
       handlerFunc := HealthCheck |} ].

(** The router library decides whether a path matches a template and
    extracts the path variables; what it answers itself when no route
    matches (not found, method not allowed, redirect) touches neither
    the handlers nor the store. Both are parameters. *)
Variable matchPath : string -> string -> option (gmap string string).
Variable noRoute : ResponseWriter -> HttpRequest -> ResponseWriter.

(** Routes are tried in the order of registration; a route matches when
    its template matches the path and its method is the request's. *)
Fixpoint matchRoutes (r : HttpRequest) (rs : list Route)
  : option (Route * gmap string string) :=
  match rs with
  | [] => None
  | route :: rest =>
      match matchPath (template route) (URLPath r) with
      | Some vars =>
          if bool_decide (Method r = method route) then Some (route, vars)
          else matchRoutes r rest
      | None => matchRoutes r rest
      end
  end.

(** The request a matched route hands to its handler function;
    [mux.Vars(r)["name"]] is the empty string when there is no such
    variable. *)
Definition routed (rt : Runtime) (r : HttpRequest) (h : HandlerFunc)
    (vars : gmap string string) : Request :=
  match h with
  | ListAllPatients => GetPatients
  | CreatePatient => PostPatients (decodedBody r)
  | GetPatientByName => GetPatient (default "" (vars !! "name"))
  | HealthCheck => GetHealth (clockText rt)
  end.

(** The router [r] of [main]. *)
Definition router (rt : Runtime) : Handler :=
  fun w r store =>
    match matchRoutes r routes with
    | Some (route, vars) =>
        let served :=
          handle (rangeOrder rt) (routed rt r (handlerFunc route) vars) store in
        (respond served.1 w, served.2)
    | None => (noRoute w r, store)
    end.

(** [handler := enableCORS(r)], what [main] passes to the server. *)
Definition handler (rt : Runtime) : Handler := enableCORS (router rt).

(** A handler that leaves the header [key] as it finds it, up to the
    moment the headers go out. *)
Definition keepsHeader (next : Handler) (key : string) : Prop :=
  forall w r store,
    sent w = None -> sentHeader (next w r store).1 !! key = header w !! key.

(** The writer a request starts with. *)
Definition newWriter : ResponseWriter :=
  {| header := ∅; sent := None; written := [] |}.

(** ** Sample router parameters and requests *)

(** The bytes of [s] after the prefix [prefix], when [s] starts with it. *)
Fixpoint afterPrefix (prefix s : string) : option string :=
  match prefix, s with
  | EmptyString, _ => Some s
  | String a prefix', String b s' =>
      if bool_decide (a = b) then afterPrefix prefix' s' else None
  | String _ _, EmptyString => None
  end.

(** A path matcher for the four templates of [main]: a template without
    variable matches the equal path, ["/api/patients/{name}"] matches a
    path that continues ["/api/patients/"] with a non-empty segment. *)
Definition samplePathMatch (template path : string)
  : option (gmap string string) :=
  if bool_decide (template = path) then Some ∅
  else if bool_decide (template = "/api/patients/{name}") then
    match afterPrefix "/api/patients/" path with
    | Some name =>
        if bool_decide (name = "") || anyByte (fun c => bool_decide (c = "/"%char)) name
        then None
        else Some {[ "name" := name ]}
    | None => None
    end
  else None.

Definition sampleNoRoute (w : ResponseWriter) (r : HttpRequest)
  : ResponseWriter :=
  respond (httpError "404 page not found" StatusNotFound) w.

Definition sampleRuntime : Runtime :=
  {| rangeOrder := map_to_list (patients init);
     clockText := "2026-01-01T00:00:00Z" |}.

Definition postAda : HttpRequest :=
  {| Method := "POST"; URLPath := "/api/patients"; decodedBody := Some ada |}.

Definition getEmily : HttpRequest :=
  {| Method := "GET"; URLPath := "/api/patients/EMILY LOR";
     decodedBody := None |}.

Definition optionsPatients : HttpRequest :=
  {| Method := "OPTIONS"; URLPath := "/api/patients";
     decodedBody := Some ada |}.

Definition deletePatients : HttpRequest :=
  {| Method := "DELETE"; URLPath := "/api/patients"; decodedBody := Some ada |}.

(** ** Auxiliary facts *)

Lemma collect_from (visit : list (string * PatientInfo)) (acc : list PatientInfo) :
  foldl (fun patients entry => (patients ++ [entry.2])%list) acc visit
  = (acc ++ visit.*2)%list.
Proof.
  revert acc. induction visit as [|entry visit IH]; intros acc; simpl.
  - by rewrite app_nil_r.
  - rewrite IH. by rewrite <- app_assoc.
Qed.

Lemma collect_values (visit : list (string * PatientInfo)) :
  collect visit = visit.*2.
Proof. unfold collect. by rewrite collect_from. Qed.

Lemma collect_length (store : PatientStore) visit :
  rangeOver (patients store) visit ->
  length (collect visit) = size (patients store).
Proof.
  unfold rangeOver. intros Hvisit.
  rewrite collect_values, length_fmap, Hvisit.
  apply length_map_to_list.
Qed.

Lemma elem_of_collect (store : PatientStore) visit patient :
  rangeOver (patients store) visit ->
  patient ∈ collect visit <->
  exists key, patients store !! key = Some patient.
Proof.
  unfold rangeOver. intros Hvisit. rewrite collect_values, list_elem_of_fmap.
  split.
  - intros [[key p] [-> Hin]]. exists key.
    rewrite Hvisit in Hin. by apply elem_of_map_to_list in Hin.
  - intros [key Hkey]. exists (key, patient). split; [done|].
    rewrite Hvisit. by apply elem_of_map_to_list.
Qed.

Lemma put_lookup patient store :
  patients (put patient store) !! ToLower (Name patient) = Some patient.
Proof. unfold put; simpl. apply lookup_insert_eq. Qed.

Lemma put_lookup_other patient store key :
  key <> ToLower (Name patient) ->
  patients (put patient store) !! key = patients store !! key.
Proof. intros Hne. unfold put; simpl. by rewrite lookup_insert_ne. Qed.

Lemma put_keyed patient store :
  keyedByLowerName store -> keyedByLowerName (put patient store).
Proof.
  intros Hinv key q. unfold put; simpl.
  rewrite lookup_insert. case_decide as Hkey.
  - intros [= <-]. done.
  - apply Hinv.
Qed.

Lemma empty_keyed : keyedByLowerName {| patients := ∅ |}.
Proof. intros key q. simpl. by rewrite lookup_empty. Qed.

Lemma foldl_put_keyed (l : list PatientInfo) store :
  keyedByLowerName store ->
  keyedByLowerName (foldl (fun store patient => put patient store) store l).
Proof.
  revert store. induction l as [|patient l IH]; intros store Hinv; simpl.
  - done.
  - apply IH. by apply put_keyed.
Qed.

Lemma init_keyed : keyedByLowerName init.
Proof. apply foldl_put_keyed, empty_keyed. Qed.

Lemma createPatient_store decoded store :
  (createPatient decoded store).2 = store \/
  exists patient, decoded = Some patient /\
                  (createPatient decoded store).2 = put patient store.
Proof.
  unfold createPatient. destruct decoded as [patient|]; [|by left].
  destruct (_ || _); [by left|]. right. by exists patient.
Qed.

Lemma getPatientByName_store name store :
  (getPatientByName name store).2 = store.
Proof. unfold getPatientByName. by destruct (_ !! _). Qed.

Lemma step_keyed store req resp store' :
  keyedByLowerName store -> step store req resp store' ->
  keyedByLowerName store'.
Proof.
  intros Hinv Hstep. destruct req as [|decoded|name|now]; simpl in Hstep.
  - destruct Hstep as (visit & _ & [= _ <-]). done.
  - destruct (createPatient_store decoded store) as [Hsame|(patient & _ & Hput)];
      rewrite Hstep in *; simpl in *; subst store'; [done|].
    by apply put_keyed.
  - pose proof (getPatientByName_store name store) as Hsame.
    rewrite Hstep in Hsame. simpl in Hsame. by subst.
  - injection Hstep as _ <-. done.
Qed.

Lemma reachable_keyed store : reachable store -> keyedByLowerName store.
Proof.
  induction 1 as [|store req resp store' _ IH Hstep].
  - apply init_keyed.
  - by eapply step_keyed.
Qed.

Lemma init_patients :
  patients init =
  <["emily lor" := emilyLor]> (<["michael chen" := michaelChen]>
  (<["johnson fake" := johnsonFake]> (<["nobody knows" := nobodyKnows]> ∅))).
Proof. reflexivity. Qed.

Lemma init_entries :
  map_to_list (patients init) ≡ₚ
  reverse ((fun patient => (ToLower (Name patient), patient)) <$> samplePatients).
Proof.
  rewrite init_patients.
  repeat (rewrite map_to_list_insert; [apply Permutation_skip|by simplify_map_eq]).
  by rewrite map_to_list_empty.
Qed.

Lemma init_values visit :
  rangeOver (patients init) visit -> collect visit ≡ₚ samplePatients.
Proof.
  unfold rangeOver. intros Hvisit.
  rewrite collect_values, Hvisit, init_entries.
  rewrite fmap_reverse, reverse_Permutation.
  rewrite <- list_fmap_compose. reflexivity.
Qed.

(** *** Case folding on ASCII names *)

Lemma lowerByte_idempotent a : lowerByte (lowerByte a) = lowerByte a.
Proof. destruct a as [[] [] [] [] [] [] [] []]; reflexivity. Qed.

Lemma lowerByte_ascii a : isASCIIByte (lowerByte a) = isASCIIByte a.
Proof. destruct a as [[] [] [] [] [] [] [] []]; reflexivity. Qed.

Lemma sameLetter_cases a b :
  sameLetter a b = true -> a = b \/ b = lowerByte a \/ a = lowerByte b.
Proof.
  unfold sameLetter.
  rewrite !orb_true_iff, !andb_true_iff, !bool_decide_eq_true. tauto.
Qed.

Lemma sameLetter_lowerByte a b :
  sameLetter a b = true -> lowerByte a = lowerByte b.
Proof.
  intros H. destruct (sameLetter_cases a b H) as [->|[->| ->]];
    by rewrite ?lowerByte_idempotent.
Qed.

Lemma sameLetter_isASCII a b :
  sameLetter a b = true -> isASCIIByte a = isASCIIByte b.
Proof.
  intros H. destruct (sameLetter_cases a b H) as [->|[->| ->]];
    by rewrite ?lowerByte_ascii.
Qed.

Lemma mapBytes_no_upper s :
  anyByte isUpperByte s = false -> mapBytes lowerByte s = s.
Proof.
  induction s as [|c s IH]; simpl; [done|].
  rewrite orb_false_iff. intros [Hc Hs].
  unfold lowerByte at 1. rewrite Hc. by rewrite IH.
Qed.

Lemma ToLower_ascii s :
  allBytes isASCIIByte s = true -> ToLower s = mapBytes lowerByte s.
Proof.
  intros Hs. unfold ToLower. rewrite Hs.
  destruct (anyByte isUpperByte s) eqn:Hupper; [done|].
  by rewrite mapBytes_no_upper.
Qed.

Lemma caseVariant_ascii s t :
  caseVariant s t = true -> allBytes isASCIIByte s = allBytes isASCIIByte t.
Proof.
  revert t. induction s as [|a s IH]; intros [|b t]; simpl; try done.
  rewrite andb_true_iff. intros [Hab Hst].
  by rewrite (sameLetter_isASCII a b Hab), (IH t Hst).
Qed.

Lemma caseVariant_mapBytes s t :
  caseVariant s t = true -> mapBytes lowerByte s = mapBytes lowerByte t.
Proof.
  revert t. induction s as [|a s IH]; intros [|b t]; simpl; try done.
  rewrite andb_true_iff. intros [Hab Hst].
  by rewrite (sameLetter_lowerByte a b Hab), (IH t Hst).
Qed.

(** On ASCII names, spellings that differ only in the case of letters
    have the same lower-case form, hence the same key. *)
Lemma caseVariant_ToLower s t :
  allBytes isASCIIByte s = true -> caseVariant s t = true ->
  ToLower s = ToLower t.
Proof.
  intros Hs Hst.
  rewrite (ToLower_ascii s Hs).
  rewrite (ToLower_ascii t) by (by rewrite <- (caseVariant_ascii s t Hst)).
  by apply caseVariant_mapBytes.
Qed.

(** *** The handlers, case by case *)

Lemma requiredPresent_check patient :
  requiredPresent patient <->
  bool_decide (Name patient = "") || bool_decide (DateOfBirth patient = "")
  || bool_decide (Email patient = "") = false.
Proof.
  unfold requiredPresent.
  rewrite !orb_false_iff, !bool_decide_eq_false. tauto.
Qed.

Lemma createPatient_accepts patient store :
  requiredPresent patient ->
  createPatient (Some patient) store
  = (jsonResponse StatusCreated (PatientJSON patient), put patient store).
Proof.
  intros Hreq. apply requiredPresent_check in Hreq.
  unfold createPatient. by rewrite Hreq.
Qed.

Lemma createPatient_rejects patient store :
  ~ requiredPresent patient ->
  createPatient (Some patient) store
  = (httpError "Name, date of birth, and email are required" StatusBadRequest,
     store).
Proof.
  intros Hreq. rewrite requiredPresent_check in Hreq.
  apply not_false_is_true in Hreq.
  unfold createPatient. by rewrite Hreq.
Qed.

Lemma refused_spec decoded :
  refused decoded <->
  decoded = None \/ exists patient, decoded = Some patient /\ ~ requiredPresent patient.
Proof.
  unfold refused, requiredPresent. split.
  - intros [->|(patient & -> & Hempty)]; [by left|].
    right. exists patient. split; [done|]. tauto.
  - intros [->|(patient & -> & Hnot)]; [by left|].
    right. exists patient. split; [done|].
    destruct (decide (Name patient = "")) as [|Hn]; [tauto|].
    destruct (decide (DateOfBirth patient = "")) as [|Hd]; [tauto|].
    destruct (decide (Email patient = "")) as [|He]; tauto.
Qed.

Lemma getPatientByName_hit name store patient :
  patients store !! ToLower name = Some patient ->
  getPatientByName name store
  = (jsonResponse StatusOK (PatientJSON patient), store).
Proof. intros Hkey. unfold getPatientByName. by rewrite Hkey. Qed.

Lemma getPatientByName_miss name store :
  patients store !! ToLower name = None ->
  getPatientByName name store
  = (httpError "Patient not found" StatusNotFound, store).
Proof. intros Hkey. unfold getPatientByName. by rewrite Hkey. Qed.

Lemma put_size_present patient store :
  is_Some (patients store !! ToLower (Name patient)) ->
  size (patients (put patient store)) = size (patients store).
Proof.
  intros Hold. unfold put; simpl. by rewrite map_size_insert_Some.
Qed.

Lemma put_size_absent patient store :
  patients store !! ToLower (Name patient) = None ->
  size (patients (put patient store)) = S (size (patients store)).
Proof. intros Hnone. unfold put; simpl. by rewrite map_size_insert_None. Qed.

Lemma recordsOf_list visit store :
  recordsOf (listAllPatients visit store).1 = collect visit.
Proof. reflexivity. Qed.

Lemma put_comm p q store :
  ToLower (Name p) <> ToLower (Name q) ->
  put p (put q store) = put q (put p store).
Proof. intros Hne. unfold put; simpl. f_equal. by apply insert_insert_ne. Qed.

(** The health handler answers 200 with the fixed status text and the
    timestamp it was handed, whatever the store holds. *)
Lemma healthCheck_response now store :
  healthCheck now store = (jsonResponse StatusOK (HealthJSON "healthy" now), store).
Proof. reflexivity. Qed.

(** *** What a request can do to the store *)

(** A request leaves every entry in place, except that an accepted
    create writes the entry of its own key. *)
Lemma step_lookup store req resp store' key :
  step store req resp store' ->
  patients store' !! key = patients store !! key
  \/ exists patient,
       req = PostPatients (Some patient) /\ requiredPresent patient
       /\ key = ToLower (Name patient)
       /\ patients store' !! key = Some patient.
Proof.
  intros Hstep. destruct req as [|decoded|name|now]; simpl in Hstep.
  - destruct Hstep as (visit & _ & [= _ <-]). by left.
  - destruct decoded as [patient|]; [|injection Hstep as _ <-; by left].
    destruct (decide (requiredPresent patient)) as [Hreq|Hnot].
    + rewrite (createPatient_accepts _ _ Hreq) in Hstep.
      injection Hstep as _ <-.
      destruct (decide (key = ToLower (Name patient))) as [->|Hne].
      * right. exists patient. by rewrite put_lookup.
      * left. by apply put_lookup_other.
    + rewrite (createPatient_rejects _ _ Hnot) in Hstep.
      injection Hstep as _ <-. by left.
  - pose proof (getPatientByName_store name store) as Hsame.
    rewrite Hstep in Hsame. simpl in Hsame. subst. by left.
  - injection Hstep as _ <-. by left.
Qed.

(** No request removes a record: a key of the store stays a key. *)
Lemma step_keeps_keys store req resp store' key :
  step store req resp store' ->
  is_Some (patients store !! key) -> is_Some (patients store' !! key).
Proof.
  intros Hstep Hkey.
  destruct (step_lookup store req resp store' key Hstep)
    as [->|(patient & _ & _ & _ & ->)]; [done|by eexists].
Qed.

(** The four sample records never leave the store. *)
Lemma reachable_keeps_samples store :
  reachable store ->
  forall patient, patient ∈ samplePatients ->
    is_Some (patients store !! ToLower (Name patient)).
Proof.
  induction 1 as [|store req resp store' _ IH Hstep]; intros patient Hin.
  - rewrite init_patients.
    repeat (apply elem_of_cons in Hin; destruct Hin as [->|Hin]; [by eexists|]).
    by apply elem_of_nil in Hin.
  - eapply step_keeps_keys; [exact Hstep|]. by apply IH.
Qed.

(** *** The handlers on sample requests *)

Example ToLower_mixed_case : ToLower "Nobody Knows" = "nobody knows".
Proof. reflexivity. Qed.

Example ToLower_no_letters : ToLower "1985-03-15 @ x" = "1985-03-15 @ x".
Proof. reflexivity. Qed.

Example create_ada :
  createPatient (Some ada) init
  = (jsonResponse StatusCreated (PatientJSON ada), put ada init).
Proof. reflexivity. Qed.

Example get_ada_lower_case :
  (getPatientByName "ada lovelace" (createPatient (Some ada) init).2).1
  = jsonResponse StatusOK (PatientJSON ada).
Proof. reflexivity. Qed.

Example get_ada_before_create :
  (getPatientByName "ada lovelace" init).1
  = httpError "Patient not found" StatusNotFound.
Proof. reflexivity. Qed.

Example create_without_email :
  createPatient (Some noEmail) init
  = (httpError "Name, date of birth, and email are required" StatusBadRequest,
     init).
Proof. reflexivity. Qed.

Example create_undecodable :
  createPatient None init
  = (httpError "Invalid request body" StatusBadRequest, init).
Proof. reflexivity. Qed.

Example size_at_startup : size (patients init) = 4.
Proof. reflexivity. Qed.

Example size_after_emilyAgain :
  size (patients (createPatient (Some emilyAgain) init).2) = 4.
Proof. reflexivity. Qed.

Example size_after_ada :
  size (patients (createPatient (Some ada) init).2) = 5.
Proof. reflexivity. Qed.

(** ** Properties of the specification *)



(** C3: each key of the store is the lower-case form of the name of the
    record stored under it: this holds for the store [init] builds, it is
    kept by get, by put and create, and by list, and so it holds of every
    store the service can reach. *)
Theorem keys_are_lower_names :
  keyedByLowerName init
  /\ (forall store name,
        keyedByLowerName store ->
        keyedByLowerName (getPatientByName name store).2)
  /\ (forall store patient,
        keyedByLowerName store -> keyedByLowerName (put patient store))
  /\ (forall store decoded,
        keyedByLowerName store ->
        keyedByLowerName (createPatient decoded store).2)
  /\ (forall store visit,
        keyedByLowerName store ->
        keyedByLowerName (listAllPatients visit store).2)
  /\ (forall store, reachable store -> keyedByLowerName store).
Proof.
  split; [apply init_keyed|].
  split; [intros store name Hinv; by rewrite getPatientByName_store|].
  split; [intros store patient; apply put_keyed|].
  split.
  { intros store decoded Hinv.
    destruct (createPatient_store decoded store) as [->|(patient & _ & ->)];
      [done|by apply put_keyed]. }
  split; [by intros store visit Hinv|].
  apply reachable_keyed.
Qed.

(** C4: a create whose body does not decode, or whose decoded record has
    an empty name, date of birth or email, answers 400 and leaves the
    store as it was; every other create answers 201 with a JSON body that
    is the record, which is then the one stored under the lower-case form
    of its name. *)
Theorem create_refused_or_created decoded store :
  (refused decoded ->
     statusCode (createPatient decoded store).1 = StatusBadRequest
     /\ (createPatient decoded store).2 = store)
  /\ (~ refused decoded ->
      exists patient,
        decoded = Some patient
        /\ statusCode (createPatient decoded store).1 = StatusCreated
        /\ contentType (createPatient decoded store).1 = "application/json"
        /\ body (createPatient decoded store).1 = PatientJSON patient
        /\ (createPatient decoded store).2 = put patient store
        /\ patients (createPatient decoded store).2
             !! ToLower (Name patient) = Some patient).
Proof.
  split.
  - rewrite refused_spec. intros [->|(patient & -> & Hnot)]; [done|].
    by rewrite (createPatient_rejects _ _ Hnot).
  - rewrite refused_spec. intros Hok.
    destruct decoded as [patient|]; [|by destruct Hok; left].
    assert (requiredPresent patient) as Hreq.
    { apply requiredPresent_check.
      destruct (_ || _) eqn:Hcheck; [|done].
      destruct Hok. right. exists patient. split; [done|].
      rewrite requiredPresent_check. by rewrite Hcheck. }
    exists patient. rewrite (createPatient_accepts _ _ Hreq). cbn [fst snd].
    repeat split. apply put_lookup.
Qed.

(** C5: a get-by-name whose lower-cased name is not a key of the store
    answers 404 with the plain-text message "Patient not found"; one whose
    lower-cased name is a key answers 200 with the record stored there. *)
Theorem get_by_name_found_or_not store name :
  (patients store !! ToLower name = None ->
     statusCode (getPatientByName name store).1 = StatusNotFound
     /\ contentType (getPatientByName name store).1
        = "text/plain; charset=utf-8"
     /\ body (getPatientByName name store).1 = ErrorText "Patient not found")
  /\ (forall patient,
       patients store !! ToLower name = Some patient ->
       statusCode (getPatientByName name store).1 = StatusOK
       /\ body (getPatientByName name store).1 = PatientJSON patient).
Proof.
  split.
  - intros Hmiss. by rewrite (getPatientByName_miss _ _ Hmiss).
  - intros patient Hhit. by rewrite (getPatientByName_hit _ _ _ Hhit).
Qed.

(** C6: on the store [init] builds, before any create, list answers 200
    with the four sample records (Nobody Knows, Johnson Fake, Michael
    Chen, Emily Lor), each once and no other record, whatever the order
    in which the map is traversed. *)
Theorem list_at_startup visit :
  rangeOver (patients init) visit ->
  statusCode (listAllPatients visit init).1 = StatusOK
  /\ recordsOf (listAllPatients visit init).1
     ≡ₚ [nobodyKnows; johnsonFake; michaelChen; emilyLor]
  /\ length (recordsOf (listAllPatients visit init).1) = 4.
Proof.
  intros Hvisit. split; [done|]. rewrite recordsOf_list.
  pose proof (init_values visit Hvisit) as Hperm.
  split; [exact Hperm|]. by rewrite Hperm.
Qed.

(** C7: get-by-name (found or not), list and health return the store
    they were given: only create changes it. *)
Theorem reads_leave_store store :
  (forall name, (getPatientByName name store).2 = store)
  /\ (forall visit, (listAllPatients visit store).2 = store)
  /\ (forall now, (healthCheck now store).2 = store).
Proof.
  split; [intros name; apply getPatientByName_store|].
  split; reflexivity.
Qed.

(** C10: the required-field check of create is emptiness of the string,
    with no trimming, and looks at name, date of birth and email only: a
    decoded record is accepted exactly when these three are non-empty, and
    the record whose name, date of birth and email are blanks and whose
    gender and illness are empty is answered 201 and stored. *)
Theorem blank_fields_accepted store :
  (forall patient,
     statusCode (createPatient (Some patient) store).1 = StatusCreated
     <-> Name patient <> "" /\ DateOfBirth patient <> "" /\ Email patient <> "")
  /\ createPatient (Some blankPatient) store
     = (jsonResponse StatusCreated (PatientJSON blankPatient),
        put blankPatient store)
  /\ patients (createPatient (Some blankPatient) store).2 !! " "
     = Some blankPatient.
Proof.
  split; [|split].
  - intros patient. fold (requiredPresent patient).
    destruct (decide (requiredPresent patient)) as [Hreq|Hnot].
    + by rewrite (createPatient_accepts _ _ Hreq).
    + rewrite (createPatient_rejects _ _ Hnot). simpl. split; [done|tauto].
  - reflexivity.
  - simpl. apply (put_lookup blankPatient).
Qed.

(** ** Further properties of the code *)

(** *** What one request does *)

Lemma step_inv store req resp store' :
  step store req resp store' ->
  (store' = store /\ statusCode resp <> StatusCreated)
  \/ exists patient,
       req = PostPatients (Some patient) /\ requiredPresent patient
       /\ resp = jsonResponse StatusCreated (PatientJSON patient)
       /\ store' = put patient store.
Proof.
  intros Hstep. destruct req as [|decoded|name|now]; simpl in Hstep.
  - destruct Hstep as (visit & _ & [= <- <-]). by left.
  - destruct decoded as [patient|]; [|injection Hstep as <- <-; by left].
    destruct (decide (requiredPresent patient)) as [Hreq|Hnot].
    + rewrite (createPatient_accepts _ _ Hreq) in Hstep.
      injection Hstep as <- <-. right. by exists patient.
    + rewrite (createPatient_rejects _ _ Hnot) in Hstep.
      injection Hstep as <- <-. by left.
  - unfold getPatientByName in Hstep.
    destruct (patients store !! ToLower name);
      injection Hstep as <- <-; by left.
  - injection Hstep as <- <-. by left.
Qed.

Lemma put_size patient store :
  size (patients store) <= size (patients (put patient store))
  /\ size (patients (put patient store)) <= S (size (patients store)).
Proof.
  destruct (patients store !! ToLower (Name patient)) as [old|] eqn:Hkey.
  - rewrite put_size_present by (by eexists). lia.
  - rewrite put_size_absent by done. lia.
Qed.

Lemma step_size store req resp store' :
  step store req resp store' ->
  size (patients store) <= size (patients store')
  /\ size (patients store') <= S (size (patients store)).
Proof.
  intros Hstep.
  destruct (step_inv _ _ _ _ Hstep) as [[-> _]|(patient & _ & _ & _ & ->)].
  - lia.
  - apply put_size.
Qed.

Lemma handle_step visit req store :
  rangeOver (patients store) visit ->
  step store req (handle visit req store).1 (handle visit req store).2.
Proof.
  intros Hvisit. destruct req as [|decoded|name|now]; simpl.
  - exists visit. by split.
  - by destruct (createPatient decoded store).
  - by destruct (getPatientByName name store).
  - done.
Qed.

Lemma handle_store visit visit' req store :
  (handle visit req store).2 = (handle visit' req store).2.
Proof. by destruct req. Qed.

Lemma handle_reachable visit req store :
  reachable store -> reachable (handle visit req store).2.
Proof.
  intros Hreach.
  rewrite (handle_store visit (map_to_list (patients store))).
  eapply reachable_step; [exact Hreach|].
  apply handle_step. unfold rangeOver. reflexivity.
Qed.

Lemma samples_required patient :
  patient ∈ samplePatients -> requiredPresent patient.
Proof.
  intros Hin.
  repeat (apply elem_of_cons in Hin; destruct Hin as [->|Hin];
          [by repeat split|]).
  by apply elem_of_nil in Hin.
Qed.

Lemma foldl_put_required (l : list PatientInfo) store :
  (forall patient, patient ∈ l -> requiredPresent patient) ->
  (forall key patient,
     patients store !! key = Some patient -> requiredPresent patient) ->
  forall key patient,
    patients (foldl (fun store patient => put patient store) store l) !! key
    = Some patient -> requiredPresent patient.
Proof.
  revert store. induction l as [|p l IH]; intros store Hl Hstore; simpl.
  - done.
  - apply IH.
    + intros q Hq. apply Hl. by right.
    + intros key q. unfold put; simpl. rewrite lookup_insert.
      case_decide; [|by apply Hstore].
      intros [= <-]. apply Hl. by left.
Qed.

Lemma reachable_required store :
  reachable store ->
  forall key patient,
    patients store !! key = Some patient -> requiredPresent patient.
Proof.
  induction 1 as [|store req resp store' _ IH Hstep].
  - apply foldl_put_required; [apply samples_required|].
    intros key patient. simpl. by rewrite lookup_empty.
  - intros key patient.
    destruct (step_inv _ _ _ _ Hstep) as [[-> _]|(new & _ & Hreq & _ & ->)].
    + apply IH.
    + unfold put; simpl. rewrite lookup_insert.
      case_decide; [by intros [= <-]|apply IH].
Qed.

(** *** Entries, keys and listings *)

Lemma filter_all {A} (P : A -> Prop) `{!forall x, Decision (P x)} (l : list A) :
  Forall P l -> filter P l = l.
Proof.
  induction 1 as [|x l Hx _ IH]; [done|].
  rewrite filter_cons_True by done. by rewrite IH.
Qed.

Lemma entries_without_key (m : gmap string PatientInfo) key :
  map_to_list (delete key m) ≡ₚ filter (fun entry => entry.1 <> key) (map_to_list m).
Proof.
  assert (Forall (fun entry : string * PatientInfo => entry.1 <> key)
                 (map_to_list (delete key m))) as Hrest.
  { apply Forall_forall. intros [k p] Hin. simpl.
    apply elem_of_map_to_list in Hin. intros ->.
    by rewrite lookup_delete_eq in Hin. }
  destruct (m !! key) as [old|] eqn:Hkey.
  - rewrite <- (map_to_list_delete m key old Hkey).
    rewrite filter_cons_False by (simpl; intros Hne; by apply Hne).
    by rewrite filter_all.
  - rewrite delete_id in Hrest |- * by done. by rewrite filter_all.
Qed.

Lemma entries_after_insert (m : gmap string PatientInfo) key patient :
  map_to_list (<[key := patient]> m)
  ≡ₚ (key, patient) :: filter (fun entry => entry.1 <> key) (map_to_list m).
Proof.
  rewrite <- insert_delete_eq.
  rewrite map_to_list_insert by apply lookup_delete_eq.
  by rewrite entries_without_key.
Qed.

Lemma keyed_entries store visit :
  keyedByLowerName store -> rangeOver (patients store) visit ->
  Forall (fun entry => entry.1 = ToLower (Name entry.2)) visit.
Proof.
  intros Hinv Hvisit. apply Forall_forall. intros [key patient] Hin. simpl.
  rewrite Hvisit in Hin. apply elem_of_map_to_list in Hin. by apply Hinv.
Qed.

Lemma keyed_entries_names (visit : list (string * PatientInfo)) :
  Forall (fun entry => entry.1 = ToLower (Name entry.2)) visit ->
  (fun patient => ToLower (Name patient)) <$> visit.*2 = visit.*1.
Proof.
  induction 1 as [|[key patient] visit Hkey _ IH]; [done|].
  rewrite !fmap_cons. simpl in Hkey |- *. f_equal; [by symmetry|exact IH].
Qed.

Lemma keyed_entries_filter (visit : list (string * PatientInfo)) key :
  Forall (fun entry => entry.1 = ToLower (Name entry.2)) visit ->
  (filter (fun entry => entry.1 <> key) visit).*2
  = filter (fun patient => ToLower (Name patient) <> key) visit.*2.
Proof.
  induction 1 as [|[k patient] visit Hkey _ IH]; [done|].
  rewrite fmap_cons, !filter_cons. simpl in Hkey |- *. rewrite <- Hkey.
  destruct (decide (k <> key)); [rewrite fmap_cons; simpl|]; by rewrite IH.
Qed.

Lemma listed_after_put store new visit visit' :
  keyedByLowerName store ->
  rangeOver (patients store) visit ->
  rangeOver (patients (put new store)) visit' ->
  collect visit'
  ≡ₚ new :: filter (fun patient => ToLower (Name patient) <> ToLower (Name new))
                   (collect visit).
Proof.
  intros Hinv Hvisit Hvisit'. rewrite !collect_values.
  rewrite <- (keyed_entries_filter visit) by by eapply keyed_entries.
  unfold rangeOver in Hvisit'. unfold put in Hvisit'; simpl in Hvisit'.
  rewrite Hvisit', entries_after_insert. simpl.
  by rewrite <- Hvisit.
Qed.

(** *** Case folding of ASCII names, continued *)

Lemma mapBytes_lower_ascii s :
  allBytes isASCIIByte (mapBytes lowerByte s) = allBytes isASCIIByte s.
Proof.
  induction s as [|c s IH]; simpl; [done|].
  by rewrite lowerByte_ascii, IH.
Qed.

Lemma lowerByte_not_upper a : isUpperByte (lowerByte a) = false.
Proof. destruct a as [[] [] [] [] [] [] [] []]; reflexivity. Qed.

Lemma mapBytes_lower_no_upper s :
  anyByte isUpperByte (mapBytes lowerByte s) = false.
Proof.
  induction s as [|c s IH]; simpl; [done|].
  by rewrite lowerByte_not_upper, IH.
Qed.

Lemma ToLower_ascii_stays_ascii s :
  allBytes isASCIIByte s = true -> allBytes isASCIIByte (ToLower s) = true.
Proof.
  intros Hs. rewrite (ToLower_ascii s Hs). by rewrite mapBytes_lower_ascii.
Qed.

Lemma ToLower_ascii_idempotent s :
  allBytes isASCIIByte s = true -> ToLower (ToLower s) = ToLower s.
Proof.
  intros Hs. rewrite (ToLower_ascii (ToLower s))
    by by apply ToLower_ascii_stays_ascii.
  rewrite (ToLower_ascii s Hs).
  apply mapBytes_no_upper, mapBytes_lower_no_upper.
Qed.

(** *** The store over time *)

(** X1: no sequence of requests removes a record: a key of the store is
    still a key after any number of requests. *)
Theorem records_are_never_removed store store' key :
  reachableFrom store store' ->
  is_Some (patients store !! key) -> is_Some (patients store' !! key).
Proof.
  induction 1 as [|mid req resp store' _ IH Hstep]; [done|].
  intros Hkey. eapply step_keeps_keys; [exact Hstep|]. by apply IH.
Qed.

(** X2: one request never makes the store smaller and adds at most one
    record to it. *)
Theorem store_grows_by_at_most_one store req resp store' :
  step store req resp store' ->
  size (patients store) <= size (patients store')
  /\ size (patients store') <= S (size (patients store)).
Proof. apply step_size. Qed.

(** X3: every record the service returns, from get-by-name or in a
    list, has a non-empty name, date of birth and email: the samples have
    them and create stores nothing without them. *)
Theorem returned_records_have_required_fields store :
  reachable store ->
  (forall name patient,
     (getPatientByName name store).1 = jsonResponse StatusOK (PatientJSON patient)
     -> requiredPresent patient)
  /\ (forall visit patient,
       rangeOver (patients store) visit ->
       patient ∈ recordsOf (listAllPatients visit store).1 ->
       requiredPresent patient).
Proof.
  intros Hreach. split.
  - intros name patient. unfold getPatientByName.
    destruct (patients store !! ToLower name) as [found|] eqn:Hkey;
      simpl; [|discriminate].
    intros [= <-]. by eapply reachable_required.
  - intros visit patient Hvisit Hin. rewrite recordsOf_list in Hin.
    apply (elem_of_collect store visit patient Hvisit) in Hin as [key Hkey].
    by eapply reachable_required.
Qed.

(** *** List and get agree *)

(** X4: a record that list returns can be fetched by its own name, in
    any spelling with the same lower-case form, and get-by-name then
    returns that very record. *)
Theorem listed_record_is_fetchable store visit patient name :
  reachable store ->
  rangeOver (patients store) visit ->
  patient ∈ recordsOf (listAllPatients visit store).1 ->
  ToLower name = ToLower (Name patient) ->
  getPatientByName name store
  = (jsonResponse StatusOK (PatientJSON patient), store)
  /\ statusCode (getPatientByName name store).1 = StatusOK
  /\ body (getPatientByName name store).1 = PatientJSON patient.
Proof.
  intros Hreach Hvisit Hin Hname. rewrite recordsOf_list in Hin.
  apply (elem_of_collect store visit patient Hvisit) in Hin as [key Hkey].
  assert (getPatientByName name store
          = (jsonResponse StatusOK (PatientJSON patient), store)) as Hget;
    [|by rewrite Hget].
  apply getPatientByName_hit. rewrite Hname.
  by rewrite <- (reachable_keyed store Hreach key patient Hkey).
Qed.

(** X5: a record that get-by-name returns is among the records of every
    list of the same store. *)
Theorem fetched_record_is_listed store visit name patient :
  rangeOver (patients store) visit ->
  (getPatientByName name store).1 = jsonResponse StatusOK (PatientJSON patient) ->
  patient ∈ recordsOf (listAllPatients visit store).1.
Proof.
  intros Hvisit.
  destruct (patients store !! ToLower name) as [found|] eqn:Hkey.
  - rewrite (getPatientByName_hit _ _ _ Hkey). cbn [fst]. intros [= <-].
    rewrite recordsOf_list.
    apply (elem_of_collect store visit found Hvisit). by exists (ToLower name).
  - rewrite (getPatientByName_miss _ _ Hkey). discriminate.
Qed.

(** X6: a list never holds two records whose names have the same
    lower-case form. *)
Theorem listed_names_distinct store visit :
  reachable store ->
  rangeOver (patients store) visit ->
  NoDup ((fun patient => ToLower (Name patient))
           <$> recordsOf (listAllPatients visit store).1).
Proof.
  intros Hreach Hvisit. rewrite recordsOf_list, collect_values.
  rewrite keyed_entries_names
    by (eapply keyed_entries; [by apply reachable_keyed|done]).
  unfold rangeOver in Hvisit. rewrite Hvisit.
  apply NoDup_fst_map_to_list.
Qed.

(** X7: after an accepted create the list holds the new record and,
    of the records listed before, exactly those whose name has another
    lower-case form. *)
Theorem list_after_create store new visit visit' :
  reachable store ->
  requiredPresent new ->
  rangeOver (patients store) visit ->
  rangeOver (patients (createPatient (Some new) store).2) visit' ->
  recordsOf (listAllPatients visit' (createPatient (Some new) store).2).1
  ≡ₚ new :: filter (fun patient => ToLower (Name patient) <> ToLower (Name new))
                   (recordsOf (listAllPatients visit store).1).
Proof.
  intros Hreach Hreq Hvisit Hvisit'.
  rewrite (createPatient_accepts _ _ Hreq) in *. cbn [snd] in *.
  rewrite !recordsOf_list.
  apply (listed_after_put store); [by apply reachable_keyed|done..].
Qed.

(** X8: when get-by-name answers 404 for a name, an accepted create
    under that name makes the list longer by exactly one record. *)
Theorem fresh_create_adds_one store new visit visit' :
  requiredPresent new ->
  statusCode (getPatientByName (Name new) store).1 = StatusNotFound ->
  rangeOver (patients store) visit ->
  rangeOver (patients (createPatient (Some new) store).2) visit' ->
  length (recordsOf
            (listAllPatients visit' (createPatient (Some new) store).2).1)
  = S (length (recordsOf (listAllPatients visit store).1)).
Proof.
  intros Hreq Hmiss Hvisit Hvisit'.
  rewrite (createPatient_accepts _ _ Hreq) in *. cbn [snd] in *.
  rewrite !recordsOf_list.
  rewrite (collect_length _ _ Hvisit), (collect_length _ _ Hvisit').
  apply put_size_absent.
  unfold getPatientByName in Hmiss.
  by destruct (patients store !! ToLower (Name new)).
Qed.

(** *** Creates, one after another *)

(** X9: a create does not change what get-by-name answers for a name
    with another lower-case form. *)
Theorem create_leaves_other_names store decoded patient name :
  decoded = Some patient ->
  ToLower name <> ToLower (Name patient) ->
  (getPatientByName name (createPatient decoded store).2).1
  = (getPatientByName name store).1.
Proof.
  intros -> Hname.
  destruct (createPatient_store (Some patient) store)
    as [Hsame|(new & Hnew & Hput)].
  - by rewrite Hsame.
  - injection Hnew as <-. rewrite Hput.
    unfold getPatientByName. rewrite put_lookup_other by done.
    by destruct (patients store !! ToLower name).
Qed.

(** X10: of two creates under names with the same lower-case form the
    later one wins: the store is the one the later create alone would
    have left. Creating the same record twice is creating it once. *)
Theorem last_create_wins store earlier later :
  requiredPresent later ->
  ToLower (Name later) = ToLower (Name earlier) ->
  (createPatient (Some later) (createPatient (Some earlier) store).2).2
  = (createPatient (Some later) store).2.
Proof.
  intros Hreq Hname. rewrite !(createPatient_accepts _ _ Hreq). cbn [snd].
  destruct (createPatient_store (Some earlier) store)
    as [Hsame|(old & Hold & Hput)].
  - by rewrite Hsame.
  - injection Hold as <-. rewrite Hput.
    unfold put; simpl. rewrite Hname. by rewrite insert_insert_eq.
Qed.

(** X11: two creates under names with different lower-case forms leave
    the same store in either order. *)
Theorem creates_with_distinct_names_commute store p q :
  ToLower (Name p) <> ToLower (Name q) ->
  (createPatient (Some p) (createPatient (Some q) store).2).2
  = (createPatient (Some q) (createPatient (Some p) store).2).2.
Proof.
  intros Hne.
  destruct (decide (requiredPresent p)) as [Hp|Hp];
    destruct (decide (requiredPresent q)) as [Hq|Hq];
    rewrite ?(createPatient_accepts _ _ Hp), ?(createPatient_rejects _ _ Hp),
            ?(createPatient_accepts _ _ Hq), ?(createPatient_rejects _ _ Hq);
    cbn [snd];
    rewrite ?(createPatient_accepts _ _ Hp), ?(createPatient_rejects _ _ Hp),
            ?(createPatient_accepts _ _ Hq), ?(createPatient_rejects _ _ Hq);
    cbn [snd]; try done.
  by apply put_comm.
Qed.

(** *** Responses *)

(** X12: a request answered with anything but 201 leaves the store as it
    was, and a 201 is the answer to a create whose decoded record has the
    required fields, the body being that record and the store the old one
    with the record put in. *)
Theorem only_accepted_create_changes_store store req resp store' :
  step store req resp store' ->
  (statusCode resp <> StatusCreated -> store' = store)
  /\ (statusCode resp = StatusCreated ->
      exists patient,
        req = PostPatients (Some patient) /\ requiredPresent patient
        /\ body resp = PatientJSON patient /\ store' = put patient store).
Proof.
  intros Hstep.
  destruct (step_inv _ _ _ _ Hstep)
    as [[-> Hstatus]|(patient & -> & Hreq & -> & ->)].
  - split; [done|]. intros Hcreated. by destruct Hstatus.
  - split; [by intros []|]. intros _. by exists patient.
Qed.

(** X13: a response is either a JSON response with status 200 or 201
    whose body is no error message, or a plain-text response with status
    400 or 404 whose body is an error message. *)
Theorem response_status_and_content_type store req resp store' :
  step store req resp store' ->
  (contentType resp = "application/json"
   /\ (statusCode resp = StatusOK \/ statusCode resp = StatusCreated)
   /\ forall msg, body resp <> ErrorText msg)
  \/ (contentType resp = "text/plain; charset=utf-8"
      /\ (statusCode resp = StatusBadRequest \/ statusCode resp = StatusNotFound)
      /\ exists msg, body resp = ErrorText msg).
Proof.
  intros Hstep. destruct req as [|decoded|name|now]; simpl in Hstep.
  - destruct Hstep as (visit & _ & [= <- _]). left. repeat split; auto.
  - destruct decoded as [patient|];
      [|injection Hstep as <- _; right; repeat split; eauto].
    destruct (decide (requiredPresent patient)) as [Hreq|Hnot].
    + rewrite (createPatient_accepts _ _ Hreq) in Hstep.
      injection Hstep as <- _. left. repeat split; auto.
    + rewrite (createPatient_rejects _ _ Hnot) in Hstep.
      injection Hstep as <- _. right. repeat split; eauto.
  - unfold getPatientByName in Hstep.
    destruct (patients store !! ToLower name); injection Hstep as <- _.
    + left. repeat split; auto.
    + right. repeat split; eauto.
  - injection Hstep as <- _. left. repeat split; auto.
Qed.

(** *** Names in ASCII *)

(** X14: for names in ASCII, get-by-name gives the same answer for two
    spellings that differ only in the case of letters, in every store. *)
Theorem get_is_case_insensitive_on_ascii store s t :
  allBytes isASCIIByte s = true ->
  caseVariant s t = true ->
  getPatientByName s store = getPatientByName t store.
Proof.
  intros Hs Hst. unfold getPatientByName.
  by rewrite (caseVariant_ToLower s t Hs Hst).
Qed.

(** X15: a record with a name in ASCII can be fetched by the key it is
    stored under. *)
Theorem get_by_stored_key store key patient :
  reachable store ->
  patients store !! key = Some patient ->
  allBytes isASCIIByte (Name patient) = true ->
  getPatientByName key store
  = (jsonResponse StatusOK (PatientJSON patient), store)
  /\ statusCode (getPatientByName key store).1 = StatusOK
  /\ body (getPatientByName key store).1 = PatientJSON patient.
Proof.
  intros Hreach Hkey Hascii.
  pose proof (reachable_keyed store Hreach key patient Hkey) as ->.
  assert (getPatientByName (ToLower (Name patient)) store
          = (jsonResponse StatusOK (PatientJSON patient), store)) as Hget;
    [|by rewrite Hget].
  apply getPatientByName_hit.
  by rewrite ToLower_ascii_idempotent.
Qed.

(** *** The response writer *)

Lemma respond_sent resp w :
  sent w = None ->
  sent (respond resp w)
  = Some (statusCode resp, <["Content-Type" := contentType resp]> (header w)).
Proof.
  intros Hw. unfold respond, writeBody, writeHeader, setHeader; simpl.
  by rewrite Hw.
Qed.

Lemma respond_sentHeader resp w key :
  sent w = None -> key <> "Content-Type" ->
  sentHeader (respond resp w) !! key = header w !! key.
Proof.
  intros Hw Hkey. unfold sentHeader. rewrite (respond_sent resp w Hw).
  by rewrite lookup_insert_ne.
Qed.

Lemma writeHeader_sentHeader code w : sentHeader (writeHeader code w) = sentHeader w.
Proof.
  unfold sentHeader, writeHeader.
  destruct (sent w) as [[status headers]|] eqn:Hw; simpl; by rewrite ?Hw.
Qed.

(** *** Routing *)

Lemma matchRoutes_Some r rs route vars :
  matchRoutes r rs = Some (route, vars) ->
  route ∈ rs
  /\ matchPath (template route) (URLPath r) = Some vars
  /\ Method r = method route.
Proof.
  induction rs as [|first rest IH]; simpl; [done|].
  destruct (matchPath (template first) (URLPath r)) as [found|] eqn:Hpath.
  - case_bool_decide as Hmethod.
    + intros [= <- <-]. split; [by left|done].
    + intros Hrest. destruct (IH Hrest) as (Hin & ? & ?).
      split; [by right|done].
  - intros Hrest. destruct (IH Hrest) as (Hin & ? & ?).
    split; [by right|done].
Qed.

Lemma matchRoutes_method r route vars :
  matchRoutes r routes = Some (route, vars) ->
  Method r = "GET" \/ (Method r = "POST" /\ handlerFunc route = CreatePatient).
Proof.
  intros Hmatch.
  destruct (matchRoutes_Some _ _ _ _ Hmatch) as (Hin & _ & ->).
  unfold routes in Hin.
  repeat (apply elem_of_cons in Hin; destruct Hin as [->|Hin]; [by auto|]).
  by apply elem_of_nil in Hin.
Qed.

Lemma matchRoutes_create r route vars :
  matchRoutes r routes = Some (route, vars) ->
  handlerFunc route = CreatePatient ->
  Method r = "POST" /\ matchPath "/api/patients" (URLPath r) = Some vars.
Proof.
  intros Hmatch.
  destruct (matchRoutes_Some _ _ _ _ Hmatch) as (Hin & Hpath & ->).
  unfold routes in Hin.
  repeat (apply elem_of_cons in Hin;
          destruct Hin as [->|Hin]; [by simpl in *|]).
  by apply elem_of_nil in Hin.
Qed.

Lemma router_store rt w r store :
  (router rt w r store).2 = store
  \/ exists route vars,
       matchRoutes r routes = Some (route, vars)
       /\ handlerFunc route = CreatePatient
       /\ (router rt w r store).2 = (createPatient (decodedBody r) store).2.
Proof.
  unfold router.
  destruct (matchRoutes r routes) as [[route vars]|] eqn:Hmatch; [|by left].
  cbn [snd].
  destruct (handlerFunc route) eqn:Hfunc; simpl;
    [by left| |rewrite getPatientByName_store; by left|by left].
  right. by exists route, vars.
Qed.

Lemma router_reachable rt w r store :
  reachable store -> reachable (router rt w r store).2.
Proof.
  intros Hreach. unfold router.
  destruct (matchRoutes r routes) as [[route vars]|]; [|done].
  by apply handle_reachable.
Qed.

Lemma router_keepsHeader rt key :
  key <> "Content-Type" ->
  (forall w r, sent w = None -> sentHeader (noRoute w r) !! key = header w !! key) ->
  keepsHeader (router rt) key.
Proof.
  intros Hkey HnoRoute w r store Hw. unfold router.
  destruct (matchRoutes r routes) as [[route vars]|]; cbn [fst].
  - by apply respond_sentHeader.
  - by apply HnoRoute.
Qed.

(** The header map after the three [Set] calls of the middleware. *)
Lemma cors_headers_set w :
  let w' := setHeader "Access-Control-Allow-Headers" "Content-Type"
              (setHeader "Access-Control-Allow-Methods" "GET, POST, OPTIONS"
                 (setHeader "Access-Control-Allow-Origin" "*" w)) in
  sent w' = sent w
  /\ header w' !! "Access-Control-Allow-Origin" = Some "*"
  /\ header w' !! "Access-Control-Allow-Methods" = Some "GET, POST, OPTIONS"
  /\ header w' !! "Access-Control-Allow-Headers" = Some "Content-Type".
Proof. simpl. repeat split; by simplify_map_eq. Qed.

Lemma enableCORS_sentHeader next w r store key value :
  sent w = None ->
  keepsHeader next key ->
  header (setHeader "Access-Control-Allow-Headers" "Content-Type"
            (setHeader "Access-Control-Allow-Methods" "GET, POST, OPTIONS"
               (setHeader "Access-Control-Allow-Origin" "*" w))) !! key
  = Some value ->
  sentHeader (enableCORS next w r store).1 !! key = Some value.
Proof.
  intros Hw Hnext Hset. unfold enableCORS.
  case_bool_decide as Hoptions; cbn [fst].
  - rewrite writeHeader_sentHeader. unfold sentHeader.
    destruct (cors_headers_set w) as (-> & _). by rewrite Hw.
  - rewrite Hnext; [done|]. by destruct (cors_headers_set w) as (-> & _).
Qed.

(** *** The middleware and the wiring of [main] *)

(** X16: an OPTIONS request stops in the middleware, whatever handler
    it wraps: the store is left as it was, nothing is written to the
    body, and status 200 is sent. *)
Theorem options_stops_in_middleware next w r store :
  Method r = "OPTIONS" ->
  sent w = None ->
  (enableCORS next w r store).2 = store
  /\ written (enableCORS next w r store).1 = written w
  /\ fst <$> sent (enableCORS next w r store).1 = Some StatusOK.
Proof.
  intros Hoptions Hw. unfold enableCORS.
  rewrite bool_decide_eq_true_2 by done.
  unfold writeHeader, setHeader; simpl. by rewrite Hw.
Qed.

(** X17: behind the middleware, every response of a handler that leaves
    the three CORS headers alone goes out with them, as the middleware
    set them. *)
Theorem cors_headers_are_sent next w r store :
  sent w = None ->
  keepsHeader next "Access-Control-Allow-Origin" ->
  keepsHeader next "Access-Control-Allow-Methods" ->
  keepsHeader next "Access-Control-Allow-Headers" ->
  sentHeader (enableCORS next w r store).1 !! "Access-Control-Allow-Origin"
  = Some "*"
  /\ sentHeader (enableCORS next w r store).1 !! "Access-Control-Allow-Methods"
     = Some "GET, POST, OPTIONS"
  /\ sentHeader (enableCORS next w r store).1 !! "Access-Control-Allow-Headers"
     = Some "Content-Type".
Proof.
  intros Hw Horigin Hmethods Hheaders.
  destruct (cors_headers_set w) as (_ & ? & ? & ?).
  repeat split; by apply enableCORS_sentHeader.
Qed.

(** X18: every response of the handler [main] serves, the 400 and 404
    of the handler functions included, goes out with the three CORS
    headers, provided the router's own answers leave them alone. *)
Theorem handler_sends_cors_headers rt w r store :
  sent w = None ->
  keepsHeader (fun w r store => (noRoute w r, store))
    "Access-Control-Allow-Origin" ->
  keepsHeader (fun w r store => (noRoute w r, store))
    "Access-Control-Allow-Methods" ->
  keepsHeader (fun w r store => (noRoute w r, store))
    "Access-Control-Allow-Headers" ->
  sentHeader (handler rt w r store).1 !! "Access-Control-Allow-Origin"
  = Some "*"
  /\ sentHeader (handler rt w r store).1 !! "Access-Control-Allow-Methods"
     = Some "GET, POST, OPTIONS"
  /\ sentHeader (handler rt w r store).1 !! "Access-Control-Allow-Headers"
     = Some "Content-Type".
Proof.
  intros Hw Horigin Hmethods Hheaders. unfold handler.
  destruct (cors_headers_set w) as (_ & ? & ? & ?).
  repeat split;
    (apply enableCORS_sentHeader; [done| |done]);
    (apply router_keepsHeader; [done|]);
    intros w' r' Hw'.
  - by apply (Horigin w' r' store).
  - by apply (Hmethods w' r' store).
  - by apply (Hheaders w' r' store).
Qed.

(** X19: through the handler [main] serves, the store changes only on a
    POST whose path matches ["/api/patients"] and whose body decodes to a
    record with the required fields; the store is then the old one with
    that record put in. *)
Theorem only_post_to_patients_changes_store rt w r store :
  (handler rt w r store).2 <> store ->
  Method r = "POST"
  /\ is_Some (matchPath "/api/patients" (URLPath r))
  /\ exists patient,
       decodedBody r = Some patient /\ requiredPresent patient
       /\ (handler rt w r store).2 = put patient store.
Proof.
  unfold handler, enableCORS. case_bool_decide as Hoptions; [done|].
  intros Hchanged. set (w' := setHeader _ _ _) in *.
  destruct (router_store rt w' r store)
    as [Hsame|(route & vars & Hmatch & Hfunc & Hcreate)]; [done|].
  destruct (matchRoutes_create _ _ _ Hmatch Hfunc) as [Hmethod Hpath].
  split; [done|]. split; [by eexists|].
  rewrite Hcreate in *.
  destruct (createPatient_store (decodedBody r) store)
    as [Hsame|(patient & Hdecoded & Hput)]; [done|].
  exists patient. split; [done|]. split; [|done].
  destruct (decide (requiredPresent patient)) as [|Hnot]; [done|].
  rewrite Hdecoded, (createPatient_rejects _ _ Hnot) in Hchanged. done.
Qed.

(** X20: serving a request through the handler [main] serves leads from
    a store the service can be in to a store the service can be in, so
    what holds of all those stores holds between any two requests. *)
Theorem handler_keeps_reachable rt w r store :
  reachable store -> reachable (handler rt w r store).2.
Proof.
  intros Hreach. unfold handler, enableCORS.
  case_bool_decide; [done|]. by apply router_reachable.
Qed.

(** X21: a request whose method is none of GET, POST and OPTIONS reaches
    no handler function: the router answers it itself, on the writer that
    carries the CORS headers, and the store is left as it was. *)
Theorem other_methods_reach_no_handler rt w r store :
  Method r <> "GET" -> Method r <> "POST" -> Method r <> "OPTIONS" ->
  handler rt w r store
  = (noRoute
       (setHeader "Access-Control-Allow-Headers" "Content-Type"
          (setHeader "Access-Control-Allow-Methods" "GET, POST, OPTIONS"
             (setHeader "Access-Control-Allow-Origin" "*" w))) r,
     store).
Proof.
  intros Hget Hpost Hoptions. unfold handler, enableCORS.
  rewrite bool_decide_eq_false_2 by done. unfold router.
  destruct (matchRoutes r routes) as [[route vars]|] eqn:Hmatch; [|done].
  destruct (matchRoutes_method _ _ _ Hmatch) as [?|[? _]]; done.
Qed.

End Service.

(** ** The properties at concrete requests

    Each statement below runs the handlers on ASCII names, with
    [keepBytes] in place of the non-ASCII path of the case folding. *)



Lemma keys_are_lower_names_witness :
  reachable keepBytes (createPatient keepBytes (Some ada) (init keepBytes)).2
  /\ keyedByLowerName keepBytes
       (createPatient keepBytes (Some ada) (init keepBytes)).2.
Proof.
  assert (reachable keepBytes
            (createPatient keepBytes (Some ada) (init keepBytes)).2) as Hreach.
  { apply (reachable_step keepBytes (init keepBytes) (PostPatients (Some ada))
             (jsonResponse StatusCreated (PatientJSON ada))).
    - apply reachable_init.
    - reflexivity. }
  split; [exact Hreach|].
  destruct (keys_are_lower_names keepBytes) as (_ & _ & _ & _ & _ & Hall).
  exact (Hall _ Hreach).
Defined.

Lemma create_refused_or_created_witness :
  refused (Some noEmail)
  /\ statusCode (createPatient keepBytes (Some noEmail) (init keepBytes)).1
     = StatusBadRequest
  /\ (createPatient keepBytes (Some noEmail) (init keepBytes)).2
     = init keepBytes
  /\ ~ refused (Some ada)
  /\ statusCode (createPatient keepBytes (Some ada) (init keepBytes)).1
     = StatusCreated
  /\ body (createPatient keepBytes (Some ada) (init keepBytes)).1
     = PatientJSON ada
  /\ patients (createPatient keepBytes (Some ada) (init keepBytes)).2
       !! "ada lovelace" = Some ada.
Proof.
  assert (refused (Some noEmail)) as Hno.
  { right. exists noEmail. split; [reflexivity|]. right; right; reflexivity. }
  assert (~ refused (Some ada)) as Hada.
  { intros [Hnone|(patient & Hsome & Hempty)]; [discriminate|].
    injection Hsome as <-. destruct Hempty as [H|[H|H]]; discriminate. }
  destruct (create_refused_or_created keepBytes (Some noEmail) (init keepBytes))
    as [Hrefused _].
  destruct (create_refused_or_created keepBytes (Some ada) (init keepBytes))
    as [_ Hcreated].
  destruct (Hrefused Hno) as [Hstatus Hstore].
  destruct (Hcreated Hada)
    as (patient & Hsome & Hcode & _ & Hbody & _ & Hstored).
  injection Hsome as <-.
  repeat split; assumption.
Defined.

Lemma get_by_name_found_or_not_witness :
  patients (init keepBytes) !! ToLower keepBytes "nonexistent" = None
  /\ statusCode (getPatientByName keepBytes "nonexistent" (init keepBytes)).1
     = StatusNotFound
  /\ body (getPatientByName keepBytes "nonexistent" (init keepBytes)).1
     = ErrorText "Patient not found"
  /\ patients (init keepBytes) !! ToLower keepBytes "Emily LOR" = Some emilyLor
  /\ statusCode (getPatientByName keepBytes "Emily LOR" (init keepBytes)).1
     = StatusOK
  /\ body (getPatientByName keepBytes "Emily LOR" (init keepBytes)).1
     = PatientJSON emilyLor.
Proof.
  assert (patients (init keepBytes) !! ToLower keepBytes "nonexistent" = None)
    as Hmiss by reflexivity.
  assert (patients (init keepBytes) !! ToLower keepBytes "Emily LOR"
          = Some emilyLor) as Hhit by reflexivity.
  destruct (get_by_name_found_or_not keepBytes (init keepBytes) "nonexistent")
    as [Hnone _].
  destruct (get_by_name_found_or_not keepBytes (init keepBytes) "Emily LOR")
    as [_ Hsome].
  destruct (Hnone Hmiss) as (Hstatus & _ & Hbody).
  destruct (Hsome emilyLor Hhit) as [Hstatus' Hbody'].
  repeat split; assumption.
Defined.

Lemma list_at_startup_witness :
  rangeOver (patients (init keepBytes))
    (reverse (map_to_list (patients (init keepBytes))))
  /\ recordsOf
       (listAllPatients (reverse (map_to_list (patients (init keepBytes))))
          (init keepBytes)).1
     ≡ₚ [nobodyKnows; johnsonFake; michaelChen; emilyLor].
Proof.
  assert (rangeOver (patients (init keepBytes))
            (reverse (map_to_list (patients (init keepBytes))))) as Hvisit.
  { unfold rangeOver. apply reverse_Permutation. }
  split; [exact Hvisit|].
  exact (proj1 (proj2 (list_at_startup keepBytes _ Hvisit))).
Defined.

(** ** The further properties at concrete requests *)

Lemma records_are_never_removed_witness :
  is_Some (patients (createPatient keepBytes (Some ada) (init keepBytes)).2
             !! "emily lor").
Proof.
  apply (records_are_never_removed keepBytes (init keepBytes)).
  - apply (from_step keepBytes (init keepBytes) (init keepBytes)
             (PostPatients (Some ada))
             (jsonResponse StatusCreated (PatientJSON ada))).
    + apply from_here.
    + reflexivity.
  - exists emilyLor. reflexivity.
Defined.

Lemma store_grows_by_at_most_one_witness :
  size (patients (init keepBytes))
  <= size (patients (put keepBytes ada (init keepBytes)))
  /\ size (patients (put keepBytes ada (init keepBytes)))
     <= S (size (patients (init keepBytes))).
Proof.
  apply (store_grows_by_at_most_one keepBytes (init keepBytes)
           (PostPatients (Some ada))
           (jsonResponse StatusCreated (PatientJSON ada))).
  reflexivity.
Defined.

Lemma returned_records_have_required_fields_witness : requiredPresent emilyLor.
Proof.
  destruct (returned_records_have_required_fields keepBytes (init keepBytes)
              (reachable_init keepBytes)) as [Hget _].
  apply (Hget "Emily Lor" emilyLor). reflexivity.
Defined.

Lemma listed_record_is_fetchable_witness :
  getPatientByName keepBytes "EMILY LOR" (init keepBytes)
  = (jsonResponse StatusOK (PatientJSON emilyLor), init keepBytes)
  /\ statusCode (getPatientByName keepBytes "EMILY LOR" (init keepBytes)).1
     = StatusOK
  /\ body (getPatientByName keepBytes "EMILY LOR" (init keepBytes)).1
     = PatientJSON emilyLor.
Proof.
  apply (listed_record_is_fetchable keepBytes (init keepBytes)
           (map_to_list (patients (init keepBytes)))).
  - apply reachable_init.
  - unfold rangeOver. reflexivity.
  - assert (rangeOver (patients (init keepBytes))
              (map_to_list (patients (init keepBytes)))) as Hvisit
      by (unfold rangeOver; reflexivity).
    apply (proj2 (elem_of_collect (init keepBytes) _ emilyLor Hvisit)).
    exists "emily lor". reflexivity.
  - reflexivity.
Defined.

Lemma fetched_record_is_listed_witness :
  emilyLor
  ∈ recordsOf (listAllPatients (map_to_list (patients (init keepBytes)))
                 (init keepBytes)).1.
Proof.
  apply (fetched_record_is_listed keepBytes (init keepBytes)
           (map_to_list (patients (init keepBytes))) "emily lor").
  - unfold rangeOver. reflexivity.
  - reflexivity.
Defined.

Lemma listed_names_distinct_witness :
  NoDup ((fun patient => ToLower keepBytes (Name patient))
           <$> recordsOf
                 (listAllPatients (map_to_list (patients (init keepBytes)))
                    (init keepBytes)).1).
Proof.
  apply (listed_names_distinct keepBytes).
  - apply reachable_init.
  - unfold rangeOver. reflexivity.
Defined.

Lemma list_after_create_witness :
  recordsOf
    (listAllPatients
       (map_to_list
          (patients (createPatient keepBytes (Some emilyAgain) (init keepBytes)).2))
       (createPatient keepBytes (Some emilyAgain) (init keepBytes)).2).1
  ≡ₚ emilyAgain
     :: filter (fun patient =>
                  ToLower keepBytes (Name patient)
                  <> ToLower keepBytes (Name emilyAgain))
          (recordsOf (listAllPatients (map_to_list (patients (init keepBytes)))
                        (init keepBytes)).1).
Proof.
  assert (requiredPresent emilyAgain) as Hreq by (repeat split; discriminate).
  assert (rangeOver (patients (init keepBytes))
            (map_to_list (patients (init keepBytes)))) as Hvisit
    by (unfold rangeOver; reflexivity).
  assert (rangeOver
            (patients (createPatient keepBytes (Some emilyAgain) (init keepBytes)).2)
            (map_to_list
               (patients
                  (createPatient keepBytes (Some emilyAgain) (init keepBytes)).2)))
    as Hvisit' by (unfold rangeOver; reflexivity).
  exact (list_after_create keepBytes (init keepBytes) emilyAgain _ _
           (reachable_init keepBytes) Hreq Hvisit Hvisit').
Defined.

Lemma fresh_create_adds_one_witness :
  length (recordsOf
            (listAllPatients
               (map_to_list
                  (patients (createPatient keepBytes (Some ada) (init keepBytes)).2))
               (createPatient keepBytes (Some ada) (init keepBytes)).2).1)
  = S (length (recordsOf
                 (listAllPatients (map_to_list (patients (init keepBytes)))
                    (init keepBytes)).1)).
Proof.
  assert (requiredPresent ada) as Hreq by (repeat split; discriminate).
  assert (rangeOver (patients (init keepBytes))
            (map_to_list (patients (init keepBytes)))) as Hvisit
    by (unfold rangeOver; reflexivity).
  assert (rangeOver
            (patients (createPatient keepBytes (Some ada) (init keepBytes)).2)
            (map_to_list
               (patients (createPatient keepBytes (Some ada) (init keepBytes)).2)))
    as Hvisit' by (unfold rangeOver; reflexivity).
  exact (fresh_create_adds_one keepBytes (init keepBytes) ada _ _
           Hreq eq_refl Hvisit Hvisit').
Defined.

Lemma create_leaves_other_names_witness :
  (getPatientByName keepBytes "emily lor"
     (createPatient keepBytes (Some ada) (init keepBytes)).2).1
  = (getPatientByName keepBytes "emily lor" (init keepBytes)).1.
Proof.
  apply (create_leaves_other_names keepBytes (init keepBytes) (Some ada) ada).
  - reflexivity.
  - simpl. discriminate.
Defined.

Lemma last_create_wins_witness :
  (createPatient keepBytes (Some emilyAgain)
     (createPatient keepBytes (Some emilyLor) (init keepBytes)).2).2
  = (createPatient keepBytes (Some emilyAgain) (init keepBytes)).2.
Proof.
  apply (last_create_wins keepBytes).
  - repeat split; discriminate.
  - reflexivity.
Defined.

Lemma creates_with_distinct_names_commute_witness :
  (createPatient keepBytes (Some ada)
     (createPatient keepBytes (Some emilyAgain) (init keepBytes)).2).2
  = (createPatient keepBytes (Some emilyAgain)
       (createPatient keepBytes (Some ada) (init keepBytes)).2).2.
Proof.
  apply (creates_with_distinct_names_commute keepBytes).
  simpl. discriminate.
Defined.

Lemma only_accepted_create_changes_store_witness :
  (getPatientByName keepBytes "nobody" (init keepBytes)).2 = init keepBytes.
Proof.
  destruct (only_accepted_create_changes_store keepBytes (init keepBytes)
              (GetPatient "nobody")
              (getPatientByName keepBytes "nobody" (init keepBytes)).1
              (getPatientByName keepBytes "nobody" (init keepBytes)).2)
    as [Hother _].
  - reflexivity.
  - apply Hother. simpl. discriminate.
Defined.

Lemma response_status_and_content_type_witness :
  (contentType (createPatient keepBytes None (init keepBytes)).1
   = "application/json"
   /\ (statusCode (createPatient keepBytes None (init keepBytes)).1 = StatusOK
       \/ statusCode (createPatient keepBytes None (init keepBytes)).1
          = StatusCreated)
   /\ forall msg,
        body (createPatient keepBytes None (init keepBytes)).1 <> ErrorText msg)
  \/ (contentType (createPatient keepBytes None (init keepBytes)).1
      = "text/plain; charset=utf-8"
      /\ (statusCode (createPatient keepBytes None (init keepBytes)).1
          = StatusBadRequest
          \/ statusCode (createPatient keepBytes None (init keepBytes)).1
             = StatusNotFound)
      /\ exists msg,
           body (createPatient keepBytes None (init keepBytes)).1
           = ErrorText msg).
Proof.
  apply (response_status_and_content_type keepBytes (init keepBytes)
           (PostPatients None) _ (init keepBytes)).
  reflexivity.
Defined.

Lemma get_is_case_insensitive_on_ascii_witness :
  getPatientByName keepBytes "Emily Lor" (init keepBytes)
  = getPatientByName keepBytes "eMILY lOR" (init keepBytes).
Proof.
  apply (get_is_case_insensitive_on_ascii keepBytes); reflexivity.
Defined.

Lemma get_by_stored_key_witness :
  getPatientByName keepBytes "emily lor" (init keepBytes)
  = (jsonResponse StatusOK (PatientJSON emilyLor), init keepBytes)
  /\ statusCode (getPatientByName keepBytes "emily lor" (init keepBytes)).1
     = StatusOK
  /\ body (getPatientByName keepBytes "emily lor" (init keepBytes)).1
     = PatientJSON emilyLor.
Proof.
  apply (get_by_stored_key keepBytes).
  - apply reachable_init.
  - reflexivity.
  - reflexivity.
Defined.

Lemma options_stops_in_middleware_witness :
  (enableCORS
     (router keepBytes samplePathMatch sampleNoRoute (sampleRuntime keepBytes))
     newWriter optionsPatients (init keepBytes)).2
  = init keepBytes
  /\ written
       (enableCORS
          (router keepBytes samplePathMatch sampleNoRoute
             (sampleRuntime keepBytes))
          newWriter optionsPatients (init keepBytes)).1
     = written newWriter
  /\ fst <$> sent
       (enableCORS
          (router keepBytes samplePathMatch sampleNoRoute
             (sampleRuntime keepBytes))
          newWriter optionsPatients (init keepBytes)).1
     = Some StatusOK.
Proof.
  apply (options_stops_in_middleware
           (router keepBytes samplePathMatch sampleNoRoute
              (sampleRuntime keepBytes))
           newWriter optionsPatients (init keepBytes)).
  - reflexivity.
  - reflexivity.
Defined.

Lemma cors_headers_are_sent_witness :
  sentHeader
    (enableCORS
       (fun w r store =>
          (respond (getPatientByName keepBytes "x" store).1 w, store))
       newWriter getEmily (init keepBytes)).1
    !! "Access-Control-Allow-Origin" = Some "*"
  /\ sentHeader
       (enableCORS
          (fun w r store =>
             (respond (getPatientByName keepBytes "x" store).1 w, store))
          newWriter getEmily (init keepBytes)).1
       !! "Access-Control-Allow-Methods" = Some "GET, POST, OPTIONS"
  /\ sentHeader
       (enableCORS
          (fun w r store =>
             (respond (getPatientByName keepBytes "x" store).1 w, store))
          newWriter getEmily (init keepBytes)).1
       !! "Access-Control-Allow-Headers" = Some "Content-Type".
Proof.
  apply (cors_headers_are_sent
           (fun w r store =>
              (respond (getPatientByName keepBytes "x" store).1 w, store))
           newWriter getEmily (init keepBytes)).
  - reflexivity.
  - intros w r store Hw. apply respond_sentHeader; [exact Hw|discriminate].
  - intros w r store Hw. apply respond_sentHeader; [exact Hw|discriminate].
  - intros w r store Hw. apply respond_sentHeader; [exact Hw|discriminate].
Defined.

Lemma handler_sends_cors_headers_witness :
  sentHeader
    (handler keepBytes samplePathMatch sampleNoRoute (sampleRuntime keepBytes)
       newWriter deletePatients (init keepBytes)).1
    !! "Access-Control-Allow-Origin" = Some "*"
  /\ sentHeader
       (handler keepBytes samplePathMatch sampleNoRoute (sampleRuntime keepBytes)
          newWriter deletePatients (init keepBytes)).1
       !! "Access-Control-Allow-Methods" = Some "GET, POST, OPTIONS"
  /\ sentHeader
       (handler keepBytes samplePathMatch sampleNoRoute (sampleRuntime keepBytes)
          newWriter deletePatients (init keepBytes)).1
       !! "Access-Control-Allow-Headers" = Some "Content-Type".
Proof.
  apply (handler_sends_cors_headers keepBytes samplePathMatch sampleNoRoute
           (sampleRuntime keepBytes) newWriter deletePatients (init keepBytes)).
  - reflexivity.
  - intros w r store Hw. apply respond_sentHeader; [exact Hw|discriminate].
  - intros w r store Hw. apply respond_sentHeader; [exact Hw|discriminate].
  - intros w r store Hw. apply respond_sentHeader; [exact Hw|discriminate].
Defined.

Lemma only_post_to_patients_changes_store_witness :
  Method postAda = "POST"
  /\ is_Some (samplePathMatch "/api/patients" (URLPath postAda))
  /\ exists patient,
       decodedBody postAda = Some patient /\ requiredPresent patient
       /\ (handler keepBytes samplePathMatch sampleNoRoute
             (sampleRuntime keepBytes) newWriter postAda (init keepBytes)).2
          = put keepBytes patient (init keepBytes).
Proof.
  apply (only_post_to_patients_changes_store keepBytes samplePathMatch
           sampleNoRoute (sampleRuntime keepBytes) newWriter postAda
           (init keepBytes)).
  intros Hsame.
  apply (f_equal (fun store => patients store !! "ada lovelace")) in Hsame.
  vm_compute in Hsame. discriminate Hsame.
Defined.

Lemma handler_keeps_reachable_witness :
  reachable keepBytes
    (handler keepBytes samplePathMatch sampleNoRoute (sampleRuntime keepBytes)
       newWriter postAda (init keepBytes)).2.
Proof.
  apply (handler_keeps_reachable keepBytes samplePathMatch sampleNoRoute
           (sampleRuntime keepBytes) newWriter postAda (init keepBytes)).
  apply reachable_init.
Defined.

Lemma other_methods_reach_no_handler_witness :
  handler keepBytes samplePathMatch sampleNoRoute (sampleRuntime keepBytes)
    newWriter deletePatients (init keepBytes)
  = (sampleNoRoute
       (setHeader "Access-Control-Allow-Headers" "Content-Type"
          (setHeader "Access-Control-Allow-Methods" "GET, POST, OPTIONS"
             (setHeader "Access-Control-Allow-Origin" "*" newWriter)))
       deletePatients,
     init keepBytes).
Proof.
  apply (other_methods_reach_no_handler keepBytes samplePathMatch sampleNoRoute
           (sampleRuntime keepBytes) newWriter deletePatients (init keepBytes));
    discriminate.
Defined.

(** ** The handler of [main] on sample requests *)

Example serve_get_emily :
  let served := handler keepBytes samplePathMatch sampleNoRoute
                  (sampleRuntime keepBytes) newWriter getEmily (init keepBytes) in
  fst <$> sent served.1 = Some StatusOK
  /\ written served.1 = [PatientJSON emilyLor]
  /\ sentHeader served.1 !! "Content-Type" = Some "application/json"
  /\ served.2 = init keepBytes.
Proof. repeat split; reflexivity. Qed.

Example serve_post_ada :
  let served := handler keepBytes samplePathMatch sampleNoRoute
                  (sampleRuntime keepBytes) newWriter postAda (init keepBytes) in
  fst <$> sent served.1 = Some StatusCreated
  /\ written served.1 = [PatientJSON ada]
  /\ patients served.2 !! "ada lovelace" = Some ada.
Proof. repeat split; reflexivity. Qed.

Example serve_options :
  let served := handler keepBytes samplePathMatch sampleNoRoute
                  (sampleRuntime keepBytes) newWriter optionsPatients
                  (init keepBytes) in
  fst <$> sent served.1 = Some StatusOK
  /\ written served.1 = []
  /\ patients served.2 !! "ada lovelace" = None.
Proof. repeat split; reflexivity. Qed.

Example samplePathMatch_name :
  samplePathMatch "/api/patients/{name}" "/api/patients/EMILY LOR"
  = Some {[ "name" := "EMILY LOR" ]}
  /\ samplePathMatch "/api/patients/{name}" "/api/patients/" = None
  /\ samplePathMatch "/api/patients/{name}" "/api/patients/a/b" = None
  /\ samplePathMatch "/api/patients" "/api/patients/x" = None.
Proof. repeat split; reflexivity. Qed.

(** ** Casings the lower-case form does not identify

    The long s is a casing of the letter whose capital is S, and
    [strings.ToLower] leaves it as it is while it lowers S to s. The two
    statements below run the handlers on names with a long s, with
    [lowerASCIILetters] as the non-ASCII path of the case folding. *)


